(** * tree-sitter-simplex: the C binding header

    The hand-written surface of the grammar module is the header
    [bindings/c/tree-sitter-simplex.h].  It is sixteen lines long: an include
    guard, a forward declaration of [TSLanguage], and the prototype of
    [tree_sitter_simplex], wrapped in [extern "C"] for C++ translation units.

    The development has four parts.
    - [Header]: the header, line by line, with the text of every line and the
      few C preprocessor directives it uses given a semantics.
    - [Unit]: what a C or a C++ translation unit makes of the preprocessed
      header: which functions are declared, with which language linkage.
    - [Runtime]: the definition of [tree_sitter_simplex] lives in the
      generated parser, which is not part of the hand-written sources; it is
      modelled after its documented contract.
    - [Naming]: the scheme by which the symbol is named after the grammar. *)

From stdpp Require Import base strings list gmap.
From Stdlib Require Import ZArith Lia.

Local Open Scope string_scope.

(** ** The header *)

Module Header.

(** C types, as far as the header spells them. *)
Inductive ctype :=
| TVoid
| TNamed (name : string)          (* a typedef name *)
| TStruct (tag : string)          (* [struct tag] *)
| TConst (t : ctype)              (* [const t] *)
| TPtr (t : ctype).               (* [t *] *)

(** Parameter lists of a prototype: [(void)], the old-style [()], or a list
    of parameter types that may end in [...]. *)
Inductive cparams :=
| PVoid
| PUnspecified
| PList (ps : list ctype) (variadic : bool).

(** File-scope declarations. *)
Inductive decl :=
| Typedef (t : ctype) (name : string)
| StructDef (tag : string) (fields : list (ctype * string))
| FunDecl (ret : ctype) (name : string) (params : cparams).

(** One line of a header. *)
Inductive line :=
| Ifndef (m : string)
| Ifdef (m : string)
| Define (m : string)
| Endif (comment : option string)
| Blank
| LinkageOpen (lang : string)     (* [extern "lang" {] *)
| LinkageClose                    (* [}] *)
| Declaration (d : decl).

Definition TREE_SITTER_SIMPLEX_H_ : string := "TREE_SITTER_SIMPLEX_H_".
Definition __cplusplus : string := "__cplusplus".

(** [const TSLanguage *] *)
Definition language_ptr : ctype := TPtr (TConst (TNamed "TSLanguage")).

(** [tree-sitter-simplex.h], lines 1 to 16. *)
Definition header : list line :=
  [ Ifndef TREE_SITTER_SIMPLEX_H_
  ; Define TREE_SITTER_SIMPLEX_H_
  ; Blank
  ; Declaration (Typedef (TStruct "TSLanguage") "TSLanguage")
  ; Blank
  ; Ifdef __cplusplus
  ; LinkageOpen "C"
  ; Endif None
  ; Blank
  ; Declaration (FunDecl language_ptr "tree_sitter_simplex" PVoid)
  ; Blank
  ; Ifdef __cplusplus
  ; LinkageClose
  ; Endif None
  ; Blank
  ; Endif (Some "TREE_SITTER_SIMPLEX_H_")
  ].

(** *** Concrete syntax

    Printing the lines gives back the text of the file, which ties the
    abstract syntax above to the source. *)

(** The double quote character, code 34. *)
Definition dquote : string :=
  String (Ascii.Ascii false true false false false true false false) EmptyString.

(** A type specifier followed by the declarator of [x]: pointers bind to the
    declarator, as in [const TSLanguage *x]. *)
Fixpoint show_specifier (t : ctype) : string :=
  match t with
  | TVoid => "void"
  | TNamed n => n
  | TStruct tag => "struct " ++ tag
  | TConst t => "const " ++ show_specifier t
  | TPtr t => show_specifier t
  end.

Fixpoint show_declarator (t : ctype) (x : string) : string :=
  match t with
  | TPtr t => show_declarator t ("*" ++ x)
  | TConst t => show_declarator t x
  | _ => x
  end.

Definition show_declaration (t : ctype) (x : string) : string :=
  show_specifier t ++ " " ++ show_declarator t x.

Definition show_type (t : ctype) : string :=
  match show_declarator t "" with
  | "" => show_specifier t
  | d => show_specifier t ++ " " ++ d
  end.

Fixpoint sep_by (sep : string) (l : list string) : string :=
  match l with
  | [] => ""
  | [x] => x
  | x :: l => x ++ sep ++ sep_by sep l
  end.

Definition show_params (p : cparams) : string :=
  match p with
  | PVoid => "(void)"
  | PUnspecified => "()"
  | PList ps variadic =>
      "(" ++ sep_by ", " (map show_type ps ++ if variadic then ["..."] else [])%list ++ ")"
  end.

Definition show_decl (d : decl) : string :=
  match d with
  | Typedef t name => "typedef " ++ show_declaration t name ++ ";"
  | StructDef tag fields =>
      "struct " ++ tag ++ " { "
        ++ sep_by " " (map (λ f, show_declaration f.1 f.2 ++ ";") fields) ++ " };"
  | FunDecl ret name params =>
      show_declaration ret (name ++ show_params params) ++ ";"
  end.

Definition show_line (l : line) : string :=
  match l with
  | Ifndef m => "#ifndef " ++ m
  | Ifdef m => "#ifdef " ++ m
  | Define m => "#define " ++ m
  | Endif None => "#endif"
  | Endif (Some c) => "#endif // " ++ c
  | Blank => ""
  | LinkageOpen lang => "extern " ++ dquote ++ lang ++ dquote ++ " {"
  | LinkageClose => "}"
  | Declaration d => show_decl d
  end.

(** The text of the file. *)
Definition source_text : list string :=
  [ "#ifndef TREE_SITTER_SIMPLEX_H_"
  ; "#define TREE_SITTER_SIMPLEX_H_"
  ; ""
  ; "typedef struct TSLanguage TSLanguage;"
  ; ""
  ; "#ifdef __cplusplus"
  ; "extern " ++ dquote ++ "C" ++ dquote ++ " {"
  ; "#endif"
  ; ""
  ; "const TSLanguage *tree_sitter_simplex(void);"
  ; ""
  ; "#ifdef __cplusplus"
  ; "}"
  ; "#endif"
  ; ""
  ; "#endif // TREE_SITTER_SIMPLEX_H_"
  ].

(** *** Preprocessing

    The header uses [#ifndef], [#ifdef], [#define] (of an object-like macro
    with an empty body) and [#endif].  The state of the preprocessor is the
    set of defined macro names and the stack of open conditionals, each
    recording whether its group is being kept. *)

(** What is left of a line after preprocessing. *)
Inductive item :=
| IOpen (lang : string)
| IClose
| IDecl (d : decl).

Definition macros := gset string.

(** A group is kept when every enclosing conditional holds. *)
Definition active (conds : list bool) : bool := forallb id conds.

Definition pp_line (l : line) (conds : list bool) (defs : macros)
  : option (list bool * macros * list item) :=
  match l with
  | Ifndef m => Some (bool_decide (m ∉ defs) :: conds, defs, [])
  | Ifdef m => Some (bool_decide (m ∈ defs) :: conds, defs, [])
  | Define m =>
      Some (conds, if active conds then {[ m ]} ∪ defs else defs, [])
  | Endif _ =>
      match conds with
      | [] => None                                   (* #endif without #if *)
      | _ :: conds => Some (conds, defs, [])
      end
  | Blank => Some (conds, defs, [])
  | LinkageOpen lang =>
      Some (conds, defs, if active conds then [IOpen lang] else [])
  | LinkageClose =>
      Some (conds, defs, if active conds then [IClose] else [])
  | Declaration d =>
      Some (conds, defs, if active conds then [IDecl d] else [])
  end.

Fixpoint pp_lines (ls : list line) (conds : list bool) (defs : macros)
  : option (list bool * macros * list item) :=
  match ls with
  | [] => Some (conds, defs, [])
  | l :: ls =>
      match pp_line l conds defs with
      | None => None
      | Some (conds, defs, out) =>
          match pp_lines ls conds defs with
          | None => None
          | Some (conds, defs, out') => Some (conds, defs, (out ++ out')%list)
          end
      end
  end.

(** Preprocessing a whole file: every conditional must be closed by the end
    of the file that opened it. *)
Definition pp_file (f : list line) (defs : macros) : option (macros * list item) :=
  match pp_lines f [] defs with
  | Some ([], defs, out) => Some (defs, out)
  | _ => None
  end.

(** [#include "tree-sitter-simplex.h"] *)
Definition include (defs : macros) : option (macros * list item) :=
  pp_file header defs.

(** The directive repeated [n] times in a row. *)
Fixpoint include_times (n : nat) (defs : macros) : option (macros * list item) :=
  match n with
  | 0 => Some (defs, [])
  | S n =>
      match include defs with
      | None => None
      | Some (defs, out) =>
          match include_times n defs with
          | None => None
          | Some (defs, out') => Some (defs, (out ++ out')%list)
          end
      end
  end.

(** What the header gives a translation unit that sees it for the first
    time. *)
Definition contents (cxx : bool) : list item :=
  if cxx then
    [ IDecl (Typedef (TStruct "TSLanguage") "TSLanguage")
    ; IOpen "C"
    ; IDecl (FunDecl language_ptr "tree_sitter_simplex" PVoid)
    ; IClose ]
  else
    [ IDecl (Typedef (TStruct "TSLanguage") "TSLanguage")
    ; IDecl (FunDecl language_ptr "tree_sitter_simplex" PVoid) ].

End Header.

(** ** Translation units *)

Module Unit.
Import Header.

(** The language a translation unit is compiled as. *)
Inductive language := C | CXX.

(** Language linkage of a function name: with C linkage the symbol is the
    name itself, with C++ linkage the name is mangled. *)
Inductive linkage := CLinkage | CXXLinkage.

(** A C++ compiler predefines [__cplusplus]; a C compiler does not. *)
Definition predefined (l : language) : macros :=
  match l with
  | C => ∅
  | CXX => {[ __cplusplus ]}
  end.

Record function := MkFunction {
  fn_name : string;
  fn_ret : ctype;
  fn_params : cparams;
  fn_linkage : linkage;
}.

(** File scope: the functions, typedef names and struct definitions seen so
    far, oldest first. *)
Record scope := Scope {
  functions : list function;
  typedefs : list (string * ctype);
  structs : list (string * list (ctype * string));
}.

Definition empty : scope := Scope [] [] [].

Definition default_linkage (l : language) : linkage :=
  match l with
  | C => CLinkage
  | CXX => CXXLinkage
  end.

(** The linkage in force: that of the innermost linkage specification. *)
Definition current (l : language) (open : list linkage) : linkage :=
  match open with
  | [] => default_linkage l
  | k :: _ => k
  end.

(** Entering a declaration into the scope.  A function takes the linkage in
    force.  Nothing is checked against what the scope already holds: the
    header declares two names, each once, and the units below reach it with
    an empty scope. *)
Definition declare (l : language) (open : list linkage) (d : decl) (sc : scope) : scope :=
  match d with
  | Typedef t name =>
      Scope (functions sc) (typedefs sc ++ [(name, t)]) (structs sc)
  | StructDef tag fields =>
      Scope (functions sc) (typedefs sc) (structs sc ++ [(tag, fields)])
  | FunDecl ret name params =>
      Scope (functions sc ++ [MkFunction name ret params (current l open)])
            (typedefs sc) (structs sc)
  end.

(** Linkage specifications exist in C++ only: in C, [extern] followed by a
    string literal is a syntax error, and so is the brace that would close
    it.  C++ knows the languages ["C"] and ["C++"]. *)
Definition elab_item (l : language) (i : item) (open : list linkage) (sc : scope)
  : option (list linkage * scope) :=
  match i, l with
  | IDecl d, _ => Some (open, declare l open d sc)
  | IOpen lang, CXX =>
      if String.eqb lang "C" then Some (CLinkage :: open, sc)
      else if String.eqb lang "C++" then Some (CXXLinkage :: open, sc)
      else None
  | IClose, CXX =>
      match open with
      | [] => None
      | _ :: open => Some (open, sc)
      end
  | IOpen _, C | IClose, C => None
  end.

Fixpoint elab_items (l : language) (its : list item) (open : list linkage) (sc : scope)
  : option (list linkage * scope) :=
  match its with
  | [] => Some (open, sc)
  | i :: its =>
      match elab_item l i open sc with
      | None => None
      | Some (open, sc) => elab_items l its open sc
      end
  end.

(** A well-formed unit closes every linkage specification it opens. *)
Definition elaborate (l : language) (its : list item) : option scope :=
  match elab_items l its [] empty with
  | Some ([], sc) => Some sc
  | _ => None
  end.

(** A translation unit compiled as [l], with [user] the macros defined
    before the header is reached, that includes the header [n] times. *)
Definition unit_including (n : nat) (l : language) (user : macros) : option scope :=
  match include_times n (predefined l ∪ user) with
  | None => None
  | Some (_, its) => elaborate l its
  end.

(** Looking up a function by name. *)
Definition find_function (sc : scope) (name : string) : option function :=
  List.find (λ f, String.eqb (fn_name f) name) (functions sc).






End Unit.

(** ** The accessor at run time *)

Module Runtime.

Definition pointer := Z.

(** Modelled from the spec: the definition of [tree_sitter_simplex] and the
    static descriptor object it refers to.  Both are emitted by the parser
    generator and are missing from the hand-written sources; the header only
    declares the function.  The contract reads: the descriptor is
    "statically allocated; lives for the lifetime of the hosting process;
    never mutated; never released", and the accessor is "a pure projection
    of a static object" with "State: none".

    A process is its byte-addressed memory, together with the place where
    the loader put the descriptor. *)
Record process := Process {
  mem : gmap Z Byte.byte;
  language_addr : pointer;
  language_size : nat;
}.

Definition read_bytes (m : gmap Z Byte.byte) (a : Z) (n : nat)
  : list (option Byte.byte) :=
  (λ i, m !! (a + Z.of_nat i)%Z) <$> seq 0 n.

(** Modelled from the spec: the accessor, in state-passing form.  It
    returns the address of the static descriptor and the process as it
    found it. *)
Definition tree_sitter_simplex (p : process) : pointer * process :=
  (language_addr p, p).

(** The bytes of the descriptor as the process holds them now. *)
Definition snapshot (p : process) : list (option Byte.byte) :=
  read_bytes (mem p) (language_addr p) (language_size p).

Definition in_descriptor (p : process) (a : Z) : bool :=
  ((language_addr p <=? a) && (a <? language_addr p + Z.of_nat (language_size p)))%Z.

(** What a program does between and around its calls of the accessor. *)
Inductive event :=
| Invoke                              (* [tree_sitter_simplex()] *)
| Store (a : Z) (b : Byte.byte).      (* a write of one byte of memory *)

(** Modelled from the spec: one step of the program.  The descriptor is a
    constant object ("shared read-only", "never mutated after module
    initialization"): a store into it is not carried out and ends the
    program.  A call yields the handle it returns. *)
Definition step (p : process) (e : event) : option (process * list pointer) :=
  match e with
  | Invoke => let '(h, p) := tree_sitter_simplex p in Some (p, [h])
  | Store a b =>
      if in_descriptor p a then None
      else Some (Process (<[ a := b ]> (mem p)) (language_addr p) (language_size p), [])
  end.

(** A run of the program, with the handles its calls returned, in order. *)
Fixpoint run (tr : list event) (p : process) : option (process * list pointer) :=
  match tr with
  | [] => Some (p, [])
  | e :: tr =>
      match step p e with
      | None => None
      | Some (p, hs) =>
          match run tr p with
          | None => None
          | Some (p, hs') => Some (p, (hs ++ hs')%list)
          end
      end
  end.

(** What a step keeps: where the descriptor is, how long it is, and what it
    holds. *)
Definition same_descriptor (p p' : process) : Prop :=
  language_addr p' = language_addr p
  ∧ language_size p' = language_size p
  ∧ snapshot p' = snapshot p.

End Runtime.

(** ** The naming scheme *)

Module Naming.

(** From the words of the specification: the symbol name is
    [<prefix>_<grammar_identifier>].  The prefix is the name of the
    incremental-parsing library, Tree-sitter, and the grammar is "simplex". *)
Definition prefix : string := "tree_sitter".
Definition grammar_identifier : string := "simplex".

Definition spec_symbol_name (prefix g : string) : string :=
  prefix +:+ "_" +:+ g.

(** The names of the functions a header declares, whatever conditional
    group they stand in. *)
Definition function_names (ls : list Header.line) : list string :=
  omap (λ l, match l with
             | Header.Declaration (Header.FunDecl _ name _) => Some name
             | _ => None
             end) ls.


(** The words the declarations of a header are written with: the
    identifiers and keywords a macro of the same name would replace.
    Directive lines and string literals are not subject to replacement. *)
Fixpoint type_words (t : Header.ctype) : list string :=
  match t with
  | Header.TVoid => ["void"]
  | Header.TNamed n => [n]
  | Header.TStruct tag => ["struct"; tag]
  | Header.TConst t => "const" :: type_words t
  | Header.TPtr t => type_words t
  end.

Definition params_words (p : Header.cparams) : list string :=
  match p with
  | Header.PVoid => ["void"]
  | Header.PUnspecified => []
  | Header.PList ps _ => concat (map type_words ps)
  end.

Definition decl_words (d : Header.decl) : list string :=
  match d with
  | Header.Typedef t name => "typedef" :: (type_words t ++ [name])%list
  | Header.StructDef tag fields =>
      "struct" :: tag :: concat (map (λ f, (type_words f.1 ++ [f.2])%list) fields)
  | Header.FunDecl ret name params =>
      (type_words ret ++ name :: params_words params)%list
  end.

Definition line_words (l : Header.line) : list string :=
  match l with
  | Header.LinkageOpen _ => ["extern"]
  | Header.Declaration d => decl_words d
  | _ => []
  end.

Definition words (ls : list Header.line) : list string :=
  concat (map line_words ls).

End Naming.

(** * Properties of the header *)

Section HeaderFacts.
Import Header Unit Naming.

(** The abstract syntax prints as the file reads. *)
Lemma header_text : map show_line header = source_text.
Proof. reflexivity. Qed.

Lemma cplusplus_after_guard (defs : macros) :
  bool_decide (__cplusplus ∈ {[ TREE_SITTER_SIMPLEX_H_ ]} ∪ defs)
  = bool_decide (__cplusplus ∈ defs).
Proof.
  apply bool_decide_ext. rewrite elem_of_union, elem_of_singleton.
  split; [intros [?|?]; [discriminate | done] | auto].
Qed.

(** The header, preprocessed once and for all macro environments: nothing
    when the guard is defined, the guard and the declarations otherwise. *)
Lemma include_eq (defs : macros) :
  include defs =
    if bool_decide (TREE_SITTER_SIMPLEX_H_ ∈ defs) then Some (defs, [])
    else Some ({[ TREE_SITTER_SIMPLEX_H_ ]} ∪ defs,
               contents (bool_decide (__cplusplus ∈ defs))).
Proof.
  unfold include, pp_file, header; cbn [pp_lines pp_line].
  destruct (bool_decide_reflect (TREE_SITTER_SIMPLEX_H_ ∈ defs)) as [Hg|Hg].
  - rewrite (bool_decide_eq_false_2 (TREE_SITTER_SIMPLEX_H_ ∉ defs)) by tauto.
    cbn. by destruct (bool_decide _).
  - rewrite (bool_decide_eq_true_2 (TREE_SITTER_SIMPLEX_H_ ∉ defs)) by done.
    cbn [active forallb id andb app].
    rewrite cplusplus_after_guard.
    by destruct (bool_decide (__cplusplus ∈ defs)).
Qed.

Lemma include_guarded (defs : macros) :
  TREE_SITTER_SIMPLEX_H_ ∈ defs → include defs = Some (defs, []).
Proof. intros Hg. rewrite include_eq. by rewrite bool_decide_eq_true_2. Qed.

Lemma include_fresh (defs : macros) :
  TREE_SITTER_SIMPLEX_H_ ∉ defs →
  include defs = Some ({[ TREE_SITTER_SIMPLEX_H_ ]} ∪ defs,
                       contents (bool_decide (__cplusplus ∈ defs))).
Proof. intros Hg. rewrite include_eq. by rewrite bool_decide_eq_false_2. Qed.

(** Every inclusion leaves the guard defined. *)
Lemma include_defines_guard (defs defs' : macros) (out : list item) :
  include defs = Some (defs', out) → TREE_SITTER_SIMPLEX_H_ ∈ defs'.
Proof.
  rewrite include_eq. case_bool_decide as Hg; intros [= <- <-]; [done|].
  apply elem_of_union_l. by apply elem_of_singleton.
Qed.

(** Once the guard is defined, any number of inclusions is a no-op. *)
Lemma include_times_guarded (n : nat) (defs : macros) :
  TREE_SITTER_SIMPLEX_H_ ∈ defs → include_times n defs = Some (defs, []).
Proof.
  intros Hg. induction n as [|n IH]; [done|].
  cbn [include_times]. by rewrite include_guarded, IH.
Qed.

Lemma include_times_succ (n : nat) (defs : macros) :
  include_times (S n) defs = include defs.
Proof.
  cbn [include_times].
  destruct (include defs) as [[defs' out]|] eqn:Hi; [|done].
  rewrite (include_times_guarded n defs') by eauto using include_defines_guard.
  by rewrite app_nil_r.
Qed.

(** A unit's predefined and user macros, as far as the header looks. *)
Lemma cplusplus_in_unit (l : language) (user : macros) :
  (l = C → __cplusplus ∉ user) →
  bool_decide (__cplusplus ∈ predefined l ∪ user)
  = match l with C => false | CXX => true end.
Proof.
  intros Hu. destruct l; cbn.
  - apply bool_decide_eq_false_2. rewrite elem_of_union.
    intros [H|H]; [by apply not_elem_of_empty in H | by apply Hu].
  - apply bool_decide_eq_true_2. apply elem_of_union_l. by apply elem_of_singleton.
Qed.

Lemma guard_in_unit (l : language) (user : macros) :
  TREE_SITTER_SIMPLEX_H_ ∉ user → TREE_SITTER_SIMPLEX_H_ ∉ predefined l ∪ user.
Proof.
  intros Hu. destruct l; cbn; rewrite elem_of_union.
  - intros [H|H]; [by apply not_elem_of_empty in H | done].
  - intros [H|H]; [apply elem_of_singleton in H; discriminate | done].
Qed.



(** Why the conditionals are there: the linkage specification is an error in
    C, and without it a C++ unit would give the function C++ linkage. *)
Example wrapped_in_C : elaborate C (contents true) = None.
Proof. reflexivity. Qed.

Example unwrapped_in_CXX :
  functions <$> elaborate CXX (contents false)
  = Some [MkFunction "tree_sitter_simplex" language_ptr PVoid CXXLinkage].
Proof. reflexivity. Qed.

Lemma append_inj_r (p x y : string) : p +:+ x = p +:+ y → x = y.
Proof.
  induction p as [|c p IH].
  - by change ("" +:+ x) with x; change ("" +:+ y) with y.
  - change (String c p +:+ x) with (String c (p +:+ x)).
    change (String c p +:+ y) with (String c (p +:+ y)).
    intros [= H]. auto.
Qed.

Lemma spec_symbol_name_inj (p g1 g2 : string) :
  spec_symbol_name p g1 = spec_symbol_name p g2 → g1 = g2.
Proof. intros H. by do 2 apply append_inj_r in H. Qed.

(** C6: the one function the header declares is named
    [<prefix>_<grammar_identifier>] with prefix [tree_sitter] and grammar
    identifier [simplex], that is [tree_sitter_simplex]; the name determines
    the grammar identifier, so modules of two different grammars export
    different symbols. *)
Theorem symbol_name_encodes_grammar :
  function_names header = [spec_symbol_name prefix grammar_identifier]
  ∧ spec_symbol_name prefix grammar_identifier = "tree_sitter_simplex"
  ∧ ∀ g : string,
      spec_symbol_name prefix g = spec_symbol_name prefix grammar_identifier →
      g = grammar_identifier.
Proof.
  split; [reflexivity|]. split; [reflexivity|].
  intros g. apply spec_symbol_name_inj.
Qed.



(** C8: whatever macros are defined, including the header succeeds and
    leaves a state in which including it again, at once or after more macros
    have been defined, succeeds, yields nothing and changes nothing; so
    including it [n + 1] times in a row is the same as including it once, for
    the preprocessor and for the unit as a whole. *)
Theorem include_guard_idempotent (defs : macros) (l : language) (n : nat) :
  (∃ defs' out,
      include defs = Some (defs', out)
      ∧ (∀ later : macros, defs' ⊆ later → include later = Some (later, []))
      ∧ include_times (S n) defs = Some (defs', out))
  ∧ unit_including (S n) l defs = unit_including 1 l defs.
Proof.
  split.
  - destruct (include defs) as [[defs' out]|] eqn:Hi.
    + exists defs', out. split; [done|]. split.
      * intros later Hsub. apply include_guarded, Hsub.
        eauto using include_defines_guard.
      * by rewrite include_times_succ.
    + rewrite include_eq in Hi. by case_bool_decide.
  - unfold unit_including. by rewrite !include_times_succ.
Qed.



End HeaderFacts.

(** * Properties of the accessor *)

Section RuntimeFacts.
Import Runtime.

(** A store elsewhere is not seen by a read. *)
Lemma read_bytes_insert_out (m : gmap Z Byte.byte) (a a' : Z) (n : nat) (b : Byte.byte) :
  (a' < a ∨ a + Z.of_nat n ≤ a')%Z →
  read_bytes (<[ a' := b ]> m) a n = read_bytes m a n.
Proof.
  intros Ha. unfold read_bytes. apply list_fmap_ext; intros k i Hk.
  apply lookup_seq in Hk as [-> Hi]. cbn.
  apply lookup_insert_ne. lia.
Qed.

Lemma in_descriptor_false (p : process) (a : Z) :
  in_descriptor p a = false →
  (a < language_addr p ∨ language_addr p + Z.of_nat (language_size p) ≤ a)%Z.
Proof. unfold in_descriptor. lia. Qed.

Lemma step_same_descriptor (p p' : process) (e : event) (hs : list pointer) :
  step p e = Some (p', hs) → same_descriptor p p'.
Proof.
  destruct e as [|a b]; cbn.
  - by intros [= <- <-].
  - destruct (in_descriptor p a) eqn:Hin; [done|]. intros [= <- <-].
    repeat split. unfold snapshot; cbn.
    apply read_bytes_insert_out. by apply in_descriptor_false.
Qed.

Lemma run_same_descriptor (tr : list event) (p p' : process) (hs : list pointer) :
  run tr p = Some (p', hs) → same_descriptor p p'.
Proof.
  revert p hs. induction tr as [|e tr IH]; intros p hs; cbn [run].
  - by intros [= <- <-].
  - destruct (step p e) as [[p1 hs1]|] eqn:Hs; [|done].
    destruct (run tr p1) as [[p2 hs2]|] eqn:Hr; [|done]. intros [= <- <-].
    destruct (step_same_descriptor _ _ _ _ Hs) as (Ha & Hn & Hb).
    destruct (IH _ _ Hr) as (Ha' & Hn' & Hb').
    repeat split; congruence.
Qed.

(** Every handle a run hands out is the address of the descriptor. *)
Lemma run_handles (tr : list event) (p p' : process) (hs : list pointer) :
  run tr p = Some (p', hs) → Forall (λ h, h = language_addr p) hs.
Proof.
  revert p hs. induction tr as [|e tr IH]; intros p hs; cbn [run].
  - intros [= <- <-]. constructor.
  - destruct (step p e) as [[p1 hs1]|] eqn:Hs; [|done].
    destruct (run tr p1) as [[p2 hs2]|] eqn:Hr; [|done]. intros [= <- <-].
    apply Forall_app. split.
    + destruct e as [|a b]; cbn in Hs.
      * injection Hs as <- <-. by repeat constructor.
      * destruct (in_descriptor p a); [done|]. injection Hs as <- <-. constructor.
    + destruct (step_same_descriptor _ _ _ _ Hs) as (Ha & _).
      rewrite <- Ha. eauto.
Qed.

Lemma run_app (tr1 tr2 : list event) (p : process) :
  run (tr1 ++ tr2) p =
    match run tr1 p with
    | None => None
    | Some (p1, hs1) =>
        match run tr2 p1 with
        | None => None
        | Some (p2, hs2) => Some (p2, (hs1 ++ hs2)%list)
        end
    end.
Proof.
  revert p. induction tr1 as [|e tr1 IH]; intros p; cbn [run app].
  - by destruct (run tr2 p) as [[p2 hs2]|].
  - destruct (step p e) as [[p1 hs1]|]; [|done]. rewrite IH.
    destruct (run tr1 p1) as [[p1' hs1']|]; [|done].
    destruct (run tr2 p1') as [[p2 hs2]|]; [|done].
    by rewrite app_assoc.
Qed.

(** C1: in a run of a process, whatever else the program does in between,
    any two calls of [tree_sitter_simplex] return equal handles; a call at
    the end of the run returns what a call at its start returns; and calling
    the accessor on the state a call leaves gives the same result again. *)
Theorem accessor_same_handle (tr : list event) (p p' : process) (hs : list pointer) :
  run tr p = Some (p', hs) →
  (∀ h1 h2 : pointer, h1 ∈ hs → h2 ∈ hs → h1 = h2)
  ∧ (tree_sitter_simplex p').1 = (tree_sitter_simplex p).1
  ∧ tree_sitter_simplex (tree_sitter_simplex p).2 = tree_sitter_simplex p.
Proof.
  intros Hr. split; [|split; [|done]].
  - pose proof (run_handles _ _ _ _ Hr) as Hh.
    rewrite Forall_forall in Hh.
    intros h1 h2 H1 H2. by rewrite (Hh _ H1), (Hh _ H2).
  - cbn. by destruct (run_same_descriptor _ _ _ _ Hr) as (-> & _).
Qed.

Lemma accessor_same_handle_witness :
  (∀ h1 h2 : pointer, h1 ∈ [4096%Z; 4096%Z] → h2 ∈ [4096%Z; 4096%Z] → h1 = h2)
  ∧ (tree_sitter_simplex (Process (<[ 7%Z := Byte.x2a ]> ∅) 4096%Z 16)).1
    = (tree_sitter_simplex (Process ∅ 4096%Z 16)).1
  ∧ tree_sitter_simplex (tree_sitter_simplex (Process ∅ 4096%Z 16)).2
    = tree_sitter_simplex (Process ∅ 4096%Z 16).
Proof.
  apply (accessor_same_handle [Invoke; Store 7%Z Byte.x2a; Invoke]).
  reflexivity.
Defined.

(** C4: a call leaves the process as it found it and returns the address of
    the static descriptor, nothing else; a call put anywhere into a program
    changes nothing of the state the program ends in, nor whether it gets
    there. *)
Theorem accessor_no_side_effect (p : process) (tr1 tr2 : list event) :
  (tree_sitter_simplex p).2 = p
  ∧ (tree_sitter_simplex p).1 = language_addr p
  ∧ fst <$> run (tr1 ++ Invoke :: tr2) p = fst <$> run (tr1 ++ tr2) p.
Proof.
  split; [done|]. split; [done|].
  rewrite !run_app. destruct (run tr1 p) as [[p1 hs1]|]; [|done].
  cbn [run step tree_sitter_simplex].
  by destruct (run tr2 p1) as [[p2 hs2]|].
Qed.

End RuntimeFacts.

(** * The header among other code

    How the header behaves in the places a unit can include it from, and at
    the edges of what the guard and the [__cplusplus] test assume. *)

Section HeaderInContext.
Import Header Unit.

(** The header adds one macro to those defined, its guard, and takes none
    away: including it changes nothing else of the macro name space. *)
Theorem include_defines_only_guard (defs : macros) :
  ∃ defs' out,
    include defs = Some (defs', out)
    ∧ defs' = {[ TREE_SITTER_SIMPLEX_H_ ]} ∪ defs
    ∧ ∀ m : string, m ≠ TREE_SITTER_SIMPLEX_H_ → (m ∈ defs' ↔ m ∈ defs).
Proof.
  rewrite include_eq. case_bool_decide as Hg; eexists _, _; (split; [done|]).
  - split.
    + apply set_eq; intros m. rewrite elem_of_union, elem_of_singleton.
      split; [auto | by intros [->|?]].
    + done.
  - split; [done|]. intros m Hm. rewrite elem_of_union, elem_of_singleton. tauto.
Qed.

(** The conditionals of the header are closed within it: wherever its lines
    stand, they leave the stack of open conditionals as they found it.  In a
    group that is kept they act as at the top of a file; in a group that is
    skipped they emit nothing and define nothing. *)
Theorem header_conditionals_self_contained (conds : list bool) (defs : macros) :
  pp_lines header conds defs =
    if active conds then
      match include defs with
      | Some (defs', out) => Some (conds, defs', out)
      | None => None
      end
    else Some (conds, defs, []).
Proof.
  rewrite include_eq.
  unfold header; cbn [pp_lines pp_line].
  unfold active; cbn [forallb id].
  destruct (forallb id conds) eqn:Hc.
  - destruct (bool_decide_reflect (TREE_SITTER_SIMPLEX_H_ ∈ defs)) as [Hg|Hg].
    + rewrite (bool_decide_eq_false_2 (TREE_SITTER_SIMPLEX_H_ ∉ defs)) by tauto.
      cbn. by destruct (bool_decide _).
    + rewrite (bool_decide_eq_true_2 (TREE_SITTER_SIMPLEX_H_ ∉ defs)) by done.
      cbn [andb app]. rewrite cplusplus_after_guard.
      by destruct (bool_decide (__cplusplus ∈ defs)).
  - rewrite !andb_false_r. cbn [app]. done.
Qed.

(** The words of the header's declarations. *)
Example header_words :
  Naming.words header
  = [ "typedef"; "struct"; "TSLanguage"; "TSLanguage"; "extern"
    ; "const"; "TSLanguage"; "tree_sitter_simplex"; "void" ].
Proof. reflexivity. Qed.

(** The linkage specification of the header is closed within it.  A C++
    unit can include the header at file scope or inside linkage
    specifications of its own, nested to any depth.  When it does so before
    declaring anything, with the guard undefined and no macro named like a
    word of the header's declarations, the function has C linkage whatever
    linkage was in force, and after the header the enclosing specifications
    are open as before. *)
Theorem header_linkage_self_contained (user : macros) (open : list linkage) :
  TREE_SITTER_SIMPLEX_H_ ∉ user →
  Forall (λ w, w ∉ user) (Naming.words header) →
  ∃ defs its sc,
    include (predefined CXX ∪ user) = Some (defs, its)
    ∧ elab_items CXX its open Unit.empty = Some (open, sc)
    ∧ functions sc = [MkFunction "tree_sitter_simplex" language_ptr PVoid CLinkage]
    ∧ typedefs sc = [("TSLanguage", TStruct "TSLanguage")].
Proof.
  intros Hg _. eexists _, _, _. split.
  - rewrite include_fresh by by apply (guard_in_unit CXX).
    by rewrite (cplusplus_in_unit CXX).
  - done.
Qed.

Lemma header_linkage_self_contained_witness :
  ∃ defs its sc,
    include (predefined CXX ∪ ∅) = Some (defs, its)
    ∧ elab_items CXX its [CXXLinkage; CLinkage] Unit.empty
      = Some ([CXXLinkage; CLinkage], sc)
    ∧ functions sc = [MkFunction "tree_sitter_simplex" language_ptr PVoid CLinkage]
    ∧ typedefs sc = [("TSLanguage", TStruct "TSLanguage")].
Proof.
  apply (header_linkage_self_contained ∅ [CXXLinkage; CLinkage]).
  - apply not_elem_of_empty.
  - apply Forall_forall. intros w _. apply not_elem_of_empty.
Defined.

(** When the guard macro is defined before the unit reaches the header, the
    header declares nothing, however often it is included: the unit does not
    get to see [tree_sitter_simplex]. *)
Theorem guard_predefined_hides_declaration (n : nat) (l : language) (user : macros) :
  TREE_SITTER_SIMPLEX_H_ ∈ user →
  ∃ sc,
    unit_including n l user = Some sc
    ∧ functions sc = []
    ∧ typedefs sc = []
    ∧ find_function sc "tree_sitter_simplex" = None.
Proof.
  intros Hg. exists Unit.empty. split; [|done].
  unfold unit_including.
  by rewrite include_times_guarded by by apply elem_of_union_r.
Qed.

Lemma guard_predefined_hides_declaration_witness :
  ∃ sc,
    unit_including 2 CXX {[ TREE_SITTER_SIMPLEX_H_ ]} = Some sc
    ∧ functions sc = []
    ∧ typedefs sc = []
    ∧ find_function sc "tree_sitter_simplex" = None.
Proof.
  apply (guard_predefined_hides_declaration 2 CXX {[ TREE_SITTER_SIMPLEX_H_ ]}).
  by apply elem_of_singleton.
Defined.

(** A C unit in which [__cplusplus] is defined gets the linkage
    specification meant for C++, which C does not have: the unit is
    rejected, however often it includes the header. *)
Theorem cplusplus_defined_in_C_rejected (n : nat) (user : macros) :
  __cplusplus ∈ user →
  TREE_SITTER_SIMPLEX_H_ ∉ user →
  unit_including (S n) C user = None.
Proof.
  intros Hc Hg. unfold unit_including.
  rewrite include_times_succ, include_fresh by by apply (guard_in_unit C).
  rewrite bool_decide_eq_true_2 by by apply elem_of_union_r.
  reflexivity.
Qed.

Lemma cplusplus_defined_in_C_rejected_witness :
  unit_including 1 C {[ __cplusplus ]} = None.
Proof.
  apply (cplusplus_defined_in_C_rejected 0 {[ __cplusplus ]}).
  - by apply elem_of_singleton.
  - rewrite elem_of_singleton. discriminate.
Defined.

End HeaderInContext.
